(** * The Cann table generator of [mick4711/moh], package [cann]

    [cann/cann.go] turns the rank-ordered league table served by
    api.football-data.org into a Cann table: one row per point total from
    the leader's points down to the last team's points, every team written
    into the row of its points.

    The development embeds [generateCann] in Gallina and proves the
    properties of the table it builds.

    - Go's [int] (and [Points], declared [type Points int]) is the 64-bit
      two's-complement integer of the gc compiler on amd64/arm64: a [Z]
      carried with its range, arithmetic wrapping around.
    - A slice is a list read and updated by index; indexing outside
      [0, len) and [make] with a negative length are run-time panics, kept
      as an outcome of their own beside a returned [error].  Memory is not
      bounded: [make] succeeds for every non-negative length.
    - [json.Unmarshal], the execution of [cann/CannTemplate.html] on the
      response writer and the HTTP fetch of [getStandings] belong to the
      standard library, to a file outside the Go sources and to the network:
      they are parameters of [generateCann] and [GenerateTable]. *)

From Stdlib Require Import ZArith Lia Bool Ascii String DecimalString DecimalPos Eqdep_dec.
From stdpp Require Import base list.

Local Open Scope Z_scope.

(** ** Machine integers *)

Module Int.

Definition half_modulus : Z := 2 ^ 63.
Definition modulus : Z := 2 ^ 64.
Definition min_signed : Z := - half_modulus.
Definition max_signed : Z := half_modulus - 1.

Definition in_range (z : Z) : bool := (min_signed <=? z) && (z <=? max_signed).

Record int : Type := mk { val : Z; range : in_range val = true }.

(** Two's-complement wrap-around of a mathematical result. *)
Definition wrap (z : Z) : Z := (z + half_modulus) mod modulus - half_modulus.

Lemma wrap_in_range (z : Z) : in_range (wrap z) = true.
Proof.
  unfold in_range, wrap, min_signed, max_signed.
  assert (H : 0 <= (z + half_modulus) mod modulus < modulus)
    by (apply Z.mod_pos_bound; reflexivity).
  assert (Hm : modulus = 2 * half_modulus) by reflexivity.
  apply andb_true_iff; split; [apply Z.leb_le | apply Z.leb_le]; lia.
Qed.

(** The range certificate of a closed value reduces to [eq_refl], so that
    tables of concrete integers compare by computation. *)
Definition canon (b : bool) : b = true -> b = true :=
  match b as b' return b' = true -> b' = true with
  | true => fun _ => eq_refl
  | false => fun H => H
  end.

Definition repr (z : Z) : int := mk (wrap z) (canon _ (wrap_in_range z)).

Definition add (a b : int) : int := repr (val a + val b).
Definition sub (a b : int) : int := repr (val a - val b).

Definition eqb (a b : int) : bool := val a =? val b.

Definition zero : int := repr 0.
Definition one : int := repr 1.

End Int.

Abbreviation int := Int.int.

(** ** Strings and [fmt.Sprintf] *)

Local Notation "s1 +++ s2" := (String.append s1 s2)
  (at level 60, right associativity).

(** The operands the program hands to [fmt.Sprintf]. *)
Inductive arg : Type :=
  | ArgInt (i : int)
  | ArgString (s : string).

(** [%d] and [%+d]: decimal digits, a minus sign for a negative value and,
    under the plus flag, a plus sign for every other value. *)
Definition fmtInteger (plus : bool) (z : Z) : string :=
  match z with
  | Z0 => (if plus then "+" else "") +++ "0"
  | Zpos p => (if plus then "+" else "") +++ NilEmpty.string_of_uint (Pos.to_uint p)
  | Zneg p => "-" +++ NilEmpty.string_of_uint (Pos.to_uint p)
  end%string.

Arguments fmtInteger : simpl never.

Definition typeName (x : arg) : string :=
  match x with ArgInt _ => "int" | ArgString _ => "string" end%string.

Definition defaultFormat (x : arg) : string :=
  match x with ArgInt i => fmtInteger false (Int.val i) | ArgString s => s end.

(** One operand under one verb.  A verb that does not fit the operand
    prints [%!verb(type=value)]. *)
Definition printArg (plus : bool) (verb : ascii) (x : arg) : string :=
  match x with
  | ArgInt i =>
      if (Ascii.eqb verb "d" || Ascii.eqb verb "v")%char
      then fmtInteger plus (Int.val i)
      else ("%!" +++ String verb "(" +++ typeName x +++ "=" +++ defaultFormat x +++ ")")%string
  | ArgString s =>
      if (Ascii.eqb verb "s" || Ascii.eqb verb "v")%char
      then s
      else ("%!" +++ String verb "(" +++ typeName x +++ "=" +++ defaultFormat x +++ ")")%string
  end.

Definition printVerb (plus : bool) (verb : ascii) (a : list arg)
    (k : list arg -> string) : string :=
  if Ascii.eqb verb "%" then ("%" +++ k a)%string
  else match a with
       | [] => ("%!" +++ String verb "(MISSING)" +++ k [])%string
       | x :: a' => printArg plus verb x +++ k a'
       end.

Fixpoint joinExtra (a : list arg) : string :=
  match a with
  | [] => ""
  | [x] => typeName x +++ "=" +++ defaultFormat x
  | x :: a' => typeName x +++ "=" +++ defaultFormat x +++ ", " +++ joinExtra a'
  end%string.

Definition extraArgs (a : list arg) : string :=
  match a with
  | [] => ""
  | _ => "%!(EXTRA " +++ joinExtra a +++ ")"
  end%string.

(** The fragment of [fmt.Sprintf] the program uses: literal text, [%%],
    the verbs [%d], [%s] and [%v], and the plus flag. *)
Fixpoint Sprintf (format : string) (a : list arg) : string :=
  match format with
  | EmptyString => extraArgs a
  | String c rest =>
      if Ascii.eqb c "%" then
        match rest with
        | EmptyString => ("%!(NOVERB)" +++ extraArgs a)%string
        | String f rest1 =>
            if Ascii.eqb f "+" then
              match rest1 with
              | EmptyString => ("%!(NOVERB)" +++ extraArgs a)%string
              | String v rest2 => printVerb true v a (Sprintf rest2)
              end
            else printVerb false f a (Sprintf rest1)
        end
      else String c (Sprintf rest a)
  end.

(** ** Run-time panics *)

Inductive panic : Type :=
  | IndexOutOfRange (index len : Z)   (* index out of range [index] with length len *)
  | MakeSliceLen.                     (* makeslice: len out of range *)

Inductive result (A : Type) : Type :=
  | Ok (a : A)
  | Panic (p : panic).

Arguments Ok {A} a.
Arguments Panic {A} p.

Definition bind {A B : Type} (m : result A) (k : A -> result B) : result B :=
  match m with
  | Ok a => k a
  | Panic p => Panic p
  end.

Notation "'let*' x ':=' m 'in' k" := (bind m (fun x => k))
  (at level 10, x name, m at level 100, k at level 200).

(** A [for _, x := range xs] loop whose body may panic and updates [acc]. *)
Fixpoint forRange {A B : Type} (body : A -> B -> result A) (acc : A) (xs : list B)
    : result A :=
  match xs with
  | [] => Ok acc
  | x :: xs' => let* acc' := body acc x in forRange body acc' xs'
  end.

(** ** Slices *)

Definition inBounds {A : Type} (s : list A) (i : Z) : bool :=
  (0 <=? i) && (i <? Z.of_nat (length s)).

(** [s[i]] read. *)
Definition index {A : Type} (s : list A) (i : Z) : result A :=
  match (if inBounds s i then s !! Z.to_nat i else None) with
  | Some x => Ok x
  | None => Panic (IndexOutOfRange i (Z.of_nat (length s)))
  end.

(** [s[i]] updated in place by [f]. *)
Definition update {A : Type} (s : list A) (i : Z) (f : A -> A) : result (list A) :=
  if inBounds s i then Ok (alter f (Z.to_nat i) s)
  else Panic (IndexOutOfRange i (Z.of_nat (length s))).

(** [make([]T, n)] with the zero value [zeroT]. *)
Definition make {A : Type} (zeroT : A) (n : Z) : result (list A) :=
  if n <? 0 then Panic MakeSliceLen else Ok (replicate (Z.to_nat n) zeroT).

(** ** Data model of package [cann] *)

(** [type Points int], under the name of the package so that no row field
    shares its name. *)
Module cann.
Abbreviation Points := int (only parsing).
End cann.

Module Row.
Record t : Type := mk { Points : cann.Points; Teams : string }.
Definition zero : t := mk Int.zero "".
Definition setPoints (p : int) (r : t) : t := mk p (Teams r).
Definition addTeams (s : string) (r : t) : t := mk (Points r) (Teams r +++ s).
End Row.

Module Team.
Record t : Type := mk { ID : int; ShortName : string }.
End Team.

Module TableRow.
Record t : Type := mk {
  Team : Team.t;
  Position : int;
  Played : int;
  Points : cann.Points;
  GoalDiff : int
}.
End TableRow.

Module Standings.
Record t : Type := mk { Table : list TableRow.t }.
End Standings.

Module DataResponse.
Record t : Type := mk { Standings : list Standings.t }.
End DataResponse.

(** ** [generateCann] *)

Definition rowFormat : string := "[%d]%s(%d, %+d)".

Definition rowData (row : TableRow.t) : string :=
  Sprintf rowFormat
    [ArgInt (TableRow.Position row);
     ArgString (Team.ShortName (TableRow.Team row));
     ArgInt (TableRow.Played row);
     ArgInt (TableRow.GoalDiff row)].

(** The text the second loop appends for one team. *)
Definition teamText (row : TableRow.t) : string :=
  Sprintf " - %v" [ArgString (rowData row)].

Arguments rowData : simpl never.
Arguments teamText : simpl never.

(** Body of the loop over the standings table. *)
Definition assignTeam (maxPoints : cann.Points) (cannTable : list Row.t)
    (row : TableRow.t) : result (list Row.t) :=
  let index := Int.sub maxPoints (TableRow.Points row) in
  update cannTable (Int.val index) (Row.addTeams (teamText row)).

(** From [standingsTable] to the filled [cannTable].  The length of a slice
    is a non-negative [int], so [len(standingsTable)-1] does not wrap. *)
Definition cannTable (standingsTable : list TableRow.t) : result (list Row.t) :=
  let* first := index standingsTable 0 in
  let maxPoints := TableRow.Points first in
  let* last := index standingsTable (Z.of_nat (length standingsTable) - 1) in
  let minPoints := TableRow.Points last in
  let* empty := make Row.zero (Int.val (Int.add (Int.sub maxPoints minPoints) Int.one)) in
  let cannTable :=
    imap (fun i => Row.setPoints (Int.sub maxPoints (Int.repr (Z.of_nat i)))) empty in
  forRange (assignTeam maxPoints) cannTable standingsTable.

(** The table built from a decoded response: [dataResponse.Standings[0].Table]
    and the two loops. *)
Definition cannOfResponse (dataResponse : DataResponse.t) : result (list Row.t) :=
  let* standings0 := index (DataResponse.Standings dataResponse) 0 in
  cannTable (Standings.Table standings0).

(** What a call leaves behind when it returns: the table handed to the
    template, if execution got that far, and the returned [error]. *)
Record reply : Type := mkReply {
  rendered : option (list Row.t);
  err : option string
}.

Section GenerateCann.

(** [json.Unmarshal(standings, &dataResponse)]: the decoded value or the
    message of the decoding error. *)
Variable Unmarshal : list Byte.byte -> DataResponse.t + string.

(** [cannTemplate.Execute(w, cannTable)] for [cann/CannTemplate.html], which
    is taken to parse: the message of its error, if any. *)
Variable Execute : list Row.t -> option string.

Definition generateCann (standings : list Byte.byte) : result reply :=
  match Unmarshal standings with
  | inr e =>
      Ok (mkReply None
            (Some ("error unmarshalling json from response standings:" +++ e)%string))
  | inl dataResponse =>
      let* cannTable := cannOfResponse dataResponse in
      match Execute cannTable with
      | Some e => Ok (mkReply (Some cannTable)
                        (Some ("error executing cannTemplate:" +++ e)%string))
      | None => Ok (mkReply (Some cannTable) None)
      end
  end.

(** [returnError]: the message logged and written to the response with
    status 500. *)
Definition returnError (err : string) : string :=
  Sprintf "Unable to read current league standings %s" [ArgString err].

(** What the handler has written when it returns. *)
Record written : Type := mkWritten {
  page : option (list Row.t);
  failure : option string
}.

(** [GenerateTable], given what [getStandings] fetched: the body of the
    response or the message of its error. *)
Definition GenerateTable (fetched : list Byte.byte + string) : result written :=
  match fetched with
  | inr e => Ok (mkWritten None (Some (returnError e)))
  | inl standings =>
      let* r := generateCann standings in
      match err r with
      | Some e => Ok (mkWritten (rendered r) (Some (returnError e)))
      | None => Ok (mkWritten (rendered r) None)
      end
  end.

End GenerateCann.

(** * Vocabulary of the properties *)


(** The texts of the teams of [l], one after the other. *)
Definition texts (l : list TableRow.t) : string :=
  foldr (fun e s => teamText e +++ s) ""%string l.

(** The offset of the row a team is written to. *)
Definition slot (maxPoints : cann.Points) (e : TableRow.t) : Z :=
  Int.val (Int.sub maxPoints (TableRow.Points e)).

(** The teams of [t] written to offset [i], in the order of [t]. *)
Definition bucket (maxPoints : cann.Points) (i : nat) (t : list TableRow.t) : list TableRow.t :=
  List.filter (fun e => slot maxPoints e =? Z.of_nat i) t.

(** [maxPoints-minPoints+1] as the program computes it. *)
Definition rowCount (first lst : TableRow.t) : Z :=
  Int.val (Int.add (Int.sub (TableRow.Points first) (TableRow.Points lst)) Int.one).

(** The points written to the row at offset [i]. *)
Definition rowPoints (first : TableRow.t) (i : nat) : cann.Points :=
  Int.sub (TableRow.Points first) (Int.repr (Z.of_nat i)).

(** The ordering the provider promises: points never go up along the table. *)
Fixpoint sortedDesc (t : list TableRow.t) : bool :=
  match t with
  | [] => true
  | a :: t' =>
      match t' with
      | [] => true
      | b :: _ =>
          (Int.val (TableRow.Points b) <=? Int.val (TableRow.Points a))
          && sortedDesc t'
      end
  end.


(** Every entry's points lie between those of the last and of the first
    entry, as they do in a table sorted by descending points. *)
Definition withinEnds (first lst : TableRow.t) (t : list TableRow.t) : bool :=
  forallb (fun e =>
             (Int.val (TableRow.Points lst) <=? Int.val (TableRow.Points e))
             && (Int.val (TableRow.Points e) <=? Int.val (TableRow.Points first))) t.

(** The teams of [t] holding [p] points, in the order of [t]. *)
Definition teamsWith (p : cann.Points) (t : list TableRow.t) : list TableRow.t :=
  List.filter (fun e => Int.eqb (TableRow.Points e) p) t.

(** ** The descriptor as the format is documented

    A second rendering of one team, written from the description of the
    format ([ - ] then [[position]shortName(played, signed goal
    difference)]) with the decimal printer of the standard library, to be
    compared with what [fmt.Sprintf] produces for [rowFormat]. *)

Definition decimal (z : Z) : string := NilZero.string_of_int (Z.to_int z).

Definition signedDecimal (z : Z) : string :=
  String (if z <? 0 then "-"%char else "+"%char)
         (NilZero.string_of_uint (N.to_uint (Z.abs_N z))).

Definition descriptorSpec (e : TableRow.t) : string :=
  (" - " +++ "[" +++ decimal (Int.val (TableRow.Position e)) +++ "]"
   +++ Team.ShortName (TableRow.Team e)
   +++ "(" +++ decimal (Int.val (TableRow.Played e)) +++ ", "
   +++ signedDecimal (Int.val (TableRow.GoalDiff e)) +++ ")")%string.

(** ** Sample tables *)

Definition entry (position : Z) (shortName : string) (played points goalDiff : Z)
    : TableRow.t :=
  TableRow.mk (Team.mk (Int.repr position) shortName) (Int.repr position)
              (Int.repr played) (Int.repr points) (Int.repr goalDiff).

Definition ARS : TableRow.t := entry 1 "ARS" 10 25 12.
Definition LIV : TableRow.t := entry 2 "LIV" 10 25 8.
Definition MCI : TableRow.t := entry 3 "MCI" 10 22 15.

(** Two leaders level on points, a gap of two point values, one follower. *)
Definition sampleTable : list TableRow.t := [ARS; LIV; MCI].

Definition sampleCann : list Row.t :=
  [Row.mk (Int.repr 25) " - [1]ARS(10, +12) - [2]LIV(10, +8)";
   Row.mk (Int.repr 24) "";
   Row.mk (Int.repr 23) "";
   Row.mk (Int.repr 22) " - [3]MCI(10, +15)"].

(** The last team has more points than the first. *)
Definition risingTable : list TableRow.t :=
  [entry 1 "AAA" 5 10 0; entry 2 "BBB" 5 20 (-3)].


(** Out of order, yet no entry outside the two ends. *)
Definition shuffledTable : list TableRow.t :=
  [entry 1 "AAA" 5 10 0; entry 2 "BBB" 5 8 (-3); entry 3 "CCC" 5 9 2;
   entry 4 "DDD" 5 8 1].

(** A response without any standings, as [{"standings": []}] decodes. *)
Definition noStandings : DataResponse.t := DataResponse.mk [].

(** A response whose first standings has an empty table, as
    [{"standings": [{"table": []}]}] decodes. *)
Definition emptyTable : DataResponse.t := DataResponse.mk [Standings.mk []].

Definition sampleResponse : DataResponse.t :=
  DataResponse.mk [Standings.mk sampleTable].

(** The same first standings, followed by another one. *)
Definition longerResponse : DataResponse.t :=
  DataResponse.mk [Standings.mk sampleTable; Standings.mk risingTable].

(** ** The rest of package [cann] *)

(** The whole table in closed form: row [i] with its points and the texts
    of the teams written to it. *)
Definition cannRows (first lst : TableRow.t) (t : list TableRow.t) : list Row.t :=
  map (fun i => Row.mk (rowPoints first i) (texts (bucket (TableRow.Points first) i t)))
      (seq 0 (Z.to_nat (rowCount first lst))).

(** An entry with another team id. *)
Definition setID (id : int) (e : TableRow.t) : TableRow.t :=
  TableRow.mk (Team.mk id (Team.ShortName (TableRow.Team e)))
              (TableRow.Position e) (TableRow.Played e)
              (TableRow.Points e) (TableRow.GoalDiff e).

(** A request as [getStandings] builds it: method, URL and the header
    fields added, in order.  The body is [http.NoBody]. *)
Module Request.
Record t : Type := mk {
  Method : string;
  URL : string;
  Header : list (string * string)
}.
Definition addHeader (key value : string) (req : t) : t :=
  mk (Method req) (URL req) (Header req ++ [(key, value)]).
End Request.

(** A response as [getStandings] uses it: the status code and what
    [io.ReadAll(resp.Body)] yields, the bytes or the message of its error. *)
Module Response.
Record t : Type := mk {
  StatusCode : int;
  Body : list Byte.byte + string
}.
End Response.

(** What [getStandings] does to the outside, in order. *)
Inductive event : Type :=
  | Sent (req : Request.t)   (* client.Do(req) *)
  | ReadBody                 (* io.ReadAll(resp.Body) *)
  | Closed.                  (* the deferred resp.Body.Close() *)

Definition standingsURL : string :=
  "http://api.football-data.org/v4/competitions/PL/standings".

Definition MethodGet : string := "GET".

Definition StatusOK : int := Int.repr 200.

Section GetStandings.

(** [http.NewRequest] for the method and URL above: the message of its
    error, if it fails. *)
Variable newRequestError : option string.

(** [os.LookupEnv]. *)
Variable LookupEnv : string -> option string.

(** [client.Do]: the response or the message of the error. *)
Variable Do : Request.t -> Response.t + string.

(** [getStandings]: the body fetched or the message of the error returned,
    and the trace of what was sent, read and closed. *)
Definition getStandings : (list Byte.byte + string) * list event :=
  match newRequestError with
  | Some e => (inr ("create standings request failure: " +++ e)%string, [])
  | None =>
      let req := Request.mk MethodGet standingsURL [] in
      match LookupEnv "API_TOKEN" with
      | None => (inr "environment variable -API_TOKEN- can not be read"%string, [])
      | Some apiToken =>
          let req := Request.addHeader "X-Auth-Token" apiToken req in
          match Do req with
          | inr e => (inr ("response failure: " +++ e)%string, [Sent req])
          | inl resp =>
              if negb (Int.eqb (Response.StatusCode resp) StatusOK)
              then (inr (Sprintf "response status not OK: %v"
                                 [ArgInt (Response.StatusCode resp)]),
                    [Sent req; Closed])
              else
                match Response.Body resp with
                | inr e => (inr ("cannot read response: " +++ e)%string,
                            [Sent req; ReadBody; Closed])
                | inl body => (inl body, [Sent req; ReadBody; Closed])
                end
          end
      end
  end.

(** [GenerateTable] on what [getStandings] returns. *)
Definition fetchAndGenerate
    (Unmarshal : list Byte.byte -> DataResponse.t + string)
    (Execute : list Row.t -> option string) : result written :=
  GenerateTable Unmarshal Execute (fst getStandings).

End GetStandings.

(** The request [getStandings] sends for a token. *)
Definition tokenRequest (token : string) : Request.t :=
  Request.mk MethodGet standingsURL [("X-Auth-Token"%string, token)].

(** A server that answers 200 with [body] when the token is [token], and
    401 without a readable body otherwise. *)
Definition tokenServer (token : string) (body : list Byte.byte)
    (req : Request.t) : Response.t + string :=
  match Request.Header req with
  | [(key, value)] =>
      if (String.eqb key "X-Auth-Token" && String.eqb value token)%bool
      then inl (Response.mk StatusOK (inl body))
      else inl (Response.mk (Int.repr 401) (inr "closed"%string))
  | _ => inl (Response.mk (Int.repr 401) (inr "closed"%string))
  end.

(** * Properties *)

(** ** Arithmetic of [int] *)

Module IntFacts.
Import Int.

Lemma val_bounds (a : int) : min_signed <= val a <= max_signed.
Proof.
  destruct a as [v Hv]; simpl.
  unfold in_range in Hv. apply andb_true_iff in Hv as [H1 H2].
  apply Z.leb_le in H1, H2. lia.
Qed.

Lemma eq_of_val (a b : int) : val a = val b -> a = b.
Proof.
  destruct a as [va Ha], b as [vb Hb]; simpl; intros ->.
  f_equal. apply UIP_dec, Bool.bool_dec.
Qed.

Lemma wrap_small (z : Z) : min_signed <= z <= max_signed -> wrap z = z.
Proof.
  unfold wrap, min_signed, max_signed; intros Hz.
  assert (Hm : modulus = 2 * half_modulus) by reflexivity.
  assert (Hh : 0 < half_modulus) by reflexivity.
  rewrite Z.mod_small by lia. lia.
Qed.

(** [wrap z] is the representative of [z] modulo [2^64] in the signed range. *)
Lemma wrap_unique (z w k : Z) :
  min_signed <= w <= max_signed -> w = z + k * modulus -> wrap z = w.
Proof.
  unfold wrap, min_signed, max_signed; intros Hw ->.
  assert (Hm : modulus = 2 * half_modulus) by reflexivity.
  assert (Hh : 0 < half_modulus) by reflexivity.
  replace (z + half_modulus) with ((z + k * modulus + half_modulus) + (- k) * modulus) by ring.
  rewrite Z.mod_add by lia.
  rewrite Z.mod_small by lia. lia.
Qed.

Lemma wrap_shift (z : Z) : exists k, wrap z = z + k * modulus.
Proof.
  unfold wrap.
  exists (- ((z + half_modulus) / modulus)).
  pose proof (Z.div_mod (z + half_modulus) modulus) as H.
  assert (Hm : modulus <> 0) by discriminate.
  specialize (H Hm). lia.
Qed.


Lemma val_repr (z : Z) : val (repr z) = wrap z.
Proof. reflexivity. Qed.

Lemma val_sub (a b : int) : val (sub a b) = wrap (val a - val b).
Proof. reflexivity. Qed.

Lemma val_add (a b : int) : val (add a b) = wrap (val a + val b).
Proof. reflexivity. Qed.

(** Subtracting a difference gives back the subtrahend, also across a
    wrap-around. *)
Lemma sub_sub_cancel (a b : int) : sub a (sub a b) = b.
Proof.
  apply eq_of_val. rewrite !val_sub.
  destruct (wrap_shift (val a - val b)) as [k Hk].
  apply (wrap_unique _ _ k); [apply val_bounds | rewrite Hk; ring].
Qed.

Lemma sub_repr_cancel (a : int) (i : Z) :
  min_signed <= i <= max_signed -> val (sub a (sub a (repr i))) = i.
Proof.
  intros Hi. rewrite sub_sub_cancel, val_repr. now apply wrap_small.
Qed.


End IntFacts.

(** ** Strings *)

Lemma append_assoc (s1 s2 s3 : string) : (s1 +++ s2) +++ s3 = s1 +++ (s2 +++ s3).
Proof. induction s1 as [|c s1 IH]; simpl; [reflexivity | now rewrite IH]. Qed.

Lemma append_nil_r (s : string) : s +++ "" = s.
Proof. induction s as [|c s IH]; simpl; [reflexivity | now rewrite IH]. Qed.



Lemma texts_cons (e : TableRow.t) (l : list TableRow.t) :
  texts (e :: l) = teamText e +++ texts l.
Proof. reflexivity. Qed.

Lemma texts_app (l1 l2 : list TableRow.t) : texts (l1 ++ l2) = texts l1 +++ texts l2.
Proof.
  unfold texts. induction l1 as [|e l1 IH]; cbn; [reflexivity|].
  now rewrite IH, append_assoc.
Qed.

(** ** Slices *)

Lemma inBounds_spec {A : Type} (s : list A) (i : Z) :
  inBounds s i = true <-> 0 <= i < Z.of_nat (length s).
Proof.
  unfold inBounds. rewrite andb_true_iff, Z.leb_le, Z.ltb_lt. reflexivity.
Qed.

Lemma index_Ok {A : Type} (s : list A) (i : Z) (x : A) :
  index s i = Ok x <-> 0 <= i /\ s !! Z.to_nat i = Some x.
Proof.
  unfold index. destruct (inBounds s i) eqn:Hb.
  - apply inBounds_spec in Hb.
    destruct (s !! Z.to_nat i) as [y|]; split.
    + intros [= ->]. split; [lia | reflexivity].
    + now intros [_ [= ->]].
    + discriminate.
    + now intros [_ ?].
  - split; [discriminate|]. intros [Hi Hl].
    apply lookup_lt_Some in Hl.
    assert (inBounds s i = true) by (apply inBounds_spec; lia). congruence.
Qed.

Lemma index_0 {A : Type} (s : list A) (x : A) : index s 0 = Ok x <-> head s = Some x.
Proof.
  rewrite index_Ok, head_lookup. simpl.
  split; [now intros [_ ?] | intros H; split; [lia | exact H]].
Qed.

Lemma index_last {A : Type} (s : list A) (x : A) :
  index s (Z.of_nat (length s) - 1) = Ok x <-> last s = Some x.
Proof.
  rewrite index_Ok, last_lookup.
  replace (Z.to_nat (Z.of_nat (length s) - 1)) with (pred (length s)) by lia.
  split; [now intros [_ ?]|]. intros H. split; [|assumption].
  apply lookup_lt_Some in H. lia.
Qed.

Lemma make_Ok {A : Type} (z : A) (n : Z) (s : list A) :
  make z n = Ok s <-> 0 <= n /\ s = replicate (Z.to_nat n) z.
Proof.
  unfold make. destruct (Z.ltb_spec n 0); split.
  - discriminate.
  - intros [? _]; lia.
  - intros [= <-]. now split.
  - now intros [_ ->].
Qed.

(** ** The loop over the standings table *)

Section Loop.

Variable maxPoints : cann.Points.



Lemma bucket_cons (i : nat) (e : TableRow.t) (t : list TableRow.t) :
  bucket maxPoints i (e :: t) =
  if slot maxPoints e =? Z.of_nat i then e :: bucket maxPoints i t else bucket maxPoints i t.
Proof. reflexivity. Qed.

Lemma assignTeam_Ok (ct ct' : list Row.t) (e : TableRow.t) :
  assignTeam maxPoints ct e = Ok ct' <->
  0 <= slot maxPoints e < Z.of_nat (length ct) /\
  ct' = alter (Row.addTeams (teamText e)) (Z.to_nat (slot maxPoints e)) ct.
Proof.
  unfold assignTeam, update. fold (slot maxPoints e).
  destruct (inBounds ct (slot maxPoints e)) eqn:Hb.
  - apply inBounds_spec in Hb. split.
    + intros [= <-]. now split.
    + now intros [_ ->].
  - split; [discriminate|]. intros [Hs _].
    apply inBounds_spec in Hs. congruence.
Qed.

Lemma forRange_assign_inv (t : list TableRow.t) :
  forall ct ct' : list Row.t,
    forRange (assignTeam maxPoints) ct t = Ok ct' ->
    Forall (fun e => 0 <= slot maxPoints e < Z.of_nat (length ct)) t /\
    length ct' = length ct /\
    forall (i : nat) (r : Row.t), ct !! i = Some r ->
      ct' !! i = Some (Row.mk (Row.Points r) (Row.Teams r +++ texts (bucket maxPoints i t))).
Proof.
  induction t as [|e t IH]; intros ct ct' H; cbn in H.
  - injection H as <-. repeat split; [constructor|].
    intros i [p s] Hr; cbn. now rewrite append_nil_r.
  - destruct (assignTeam maxPoints ct e) as [ct1|] eqn:E; cbn in H; [|discriminate].
    apply assignTeam_Ok in E as [Hb ->].
    apply IH in H as (HF & Hlen & Hrows). rewrite length_alter in HF, Hlen.
    repeat split; [now constructor | assumption |].
    intros i r Hr. rewrite bucket_cons.
    destruct (decide (Z.to_nat (slot maxPoints e) = i)) as [<-|Hne].
    + rewrite Z2Nat.id, Z.eqb_refl by lia.
      rewrite (Hrows _ (Row.addTeams (teamText e) r)).
      * unfold Row.addTeams; cbn [Row.Points Row.Teams].
        now rewrite texts_cons, append_assoc.
      * now rewrite list_lookup_alter_eq, Hr.
    + destruct (Z.eqb_spec (slot maxPoints e) (Z.of_nat i)) as [Heq|_]; [lia|].
      apply Hrows. now rewrite list_lookup_alter_ne.
Qed.

Lemma forRange_assign_Ok (t : list TableRow.t) :
  forall ct : list Row.t,
    Forall (fun e => 0 <= slot maxPoints e < Z.of_nat (length ct)) t ->
    exists ct', forRange (assignTeam maxPoints) ct t = Ok ct'.
Proof.
  induction t as [|e t IH]; intros ct HF; simpl.
  - now exists ct.
  - inversion HF as [|? ? He HF']; subst.
    destruct (assignTeam maxPoints ct e) as [ct1|] eqn:E.
    + simpl. apply IH. apply assignTeam_Ok in E as [_ ->].
      now rewrite length_alter.
    + assert (Hok : assignTeam maxPoints ct e =
                    Ok (alter (Row.addTeams (teamText e)) (Z.to_nat (slot maxPoints e)) ct))
        by now apply assignTeam_Ok.
      congruence.
Qed.



End Loop.

(** ** The table [generateCann] builds *)



Lemma emptyCann_lookup (maxPoints : cann.Points) (n i : nat) :
  (i < n)%nat ->
  imap (fun i => Row.setPoints (Int.sub maxPoints (Int.repr (Z.of_nat i))))
       (replicate n Row.zero) !! i
  = Some (Row.mk (Int.sub maxPoints (Int.repr (Z.of_nat i))) "").
Proof.
  intros Hi. rewrite list_lookup_imap, lookup_replicate_2 by assumption.
  reflexivity.
Qed.

(** What a successful run has done. *)
Lemma cannTable_inv (t : list TableRow.t) (rows : list Row.t) :
  cannTable t = Ok rows ->
  exists first lst : TableRow.t,
    head t = Some first /\ last t = Some lst /\
    0 <= rowCount first lst /\
    length rows = Z.to_nat (rowCount first lst) /\
    Forall (fun e => 0 <= slot (TableRow.Points first) e < rowCount first lst) t /\
    forall i : nat, (i < length rows)%nat ->
      rows !! i = Some (Row.mk (rowPoints first i)
                               (texts (bucket (TableRow.Points first) i t))).
Proof.
  unfold cannTable. intros H.
  destruct (index t 0) as [first|] eqn:Hf; [|discriminate].
  destruct (index t (Z.of_nat (length t) - 1)) as [lst|] eqn:Hl; [|discriminate].
  cbn [bind] in H. fold (rowCount first lst) in H.
  destruct (make Row.zero (rowCount first lst)) as [empty|] eqn:Hm; [|discriminate].
  cbn [bind] in H.
  apply index_0 in Hf. apply index_last in Hl. apply make_Ok in Hm as [Hn ->].
  apply forRange_assign_inv in H as (HF & Hlen & Hrows).
  rewrite length_imap, length_replicate in HF, Hlen.
  exists first, lst. do 4 (split; [assumption|]). split.
  - eapply Forall_impl; [exact HF|]. intros e He; cbn beta in *. lia.
  - intros i Hi. rewrite Hlen in Hi.
    rewrite (Hrows i _ (emptyCann_lookup _ _ _ Hi)). reflexivity.
Qed.

(** When a run succeeds. *)
Lemma cannTable_Ok (t : list TableRow.t) (first lst : TableRow.t) :
  head t = Some first -> last t = Some lst ->
  0 <= rowCount first lst ->
  Forall (fun e => 0 <= slot (TableRow.Points first) e < rowCount first lst) t ->
  exists rows, cannTable t = Ok rows.
Proof.
  intros Hf Hl Hn HF. unfold cannTable.
  apply index_0 in Hf. apply index_last in Hl. rewrite Hf, Hl. cbn [bind].
  fold (rowCount first lst).
  assert (Hm : make Row.zero (rowCount first lst)
               = Ok (replicate (Z.to_nat (rowCount first lst)) Row.zero))
    by now apply make_Ok.
  rewrite Hm. cbn [bind].
  apply forRange_assign_Ok.
  rewrite length_imap, length_replicate.
  eapply Forall_impl; [exact HF|]. intros e He; cbn beta in *. lia.
Qed.



Lemma sortedDesc_bounds (t : list TableRow.t) :
  forall first lst : TableRow.t,
    sortedDesc t = true -> head t = Some first -> last t = Some lst ->
    forall e, e ∈ t ->
      Int.val (TableRow.Points lst) <= Int.val (TableRow.Points e)
      <= Int.val (TableRow.Points first).
Proof.
  induction t as [|a t IH]; intros first lst Hs Hf Hl e He; [discriminate|].
  injection Hf as ->.
  destruct t as [|b t'].
  - injection Hl as ->. apply list_elem_of_singleton in He as ->. lia.
  - cbn [sortedDesc] in Hs. apply andb_true_iff in Hs as [Hba Hs].
    apply Z.leb_le in Hba.
    change (last (first :: b :: t')) with (last (b :: t')) in Hl.
    pose proof (IH b lst Hs eq_refl Hl) as Hb.
    pose proof (Hb b (list_elem_of_here _ _)) as Hbb.
    apply elem_of_cons in He as [->|He]; [lia|].
    specialize (Hb e He). lia.
Qed.


(** ** The descriptor of one team *)

Lemma Int_eqb_eq (a b : int) : Int.eqb a b = true <-> a = b.
Proof.
  unfold Int.eqb. rewrite Z.eqb_eq. split; [apply IntFacts.eq_of_val | now intros ->].
Qed.

Lemma string_of_pos (p : positive) :
  NilZero.string_of_uint (Pos.to_uint p) = NilEmpty.string_of_uint (Pos.to_uint p).
Proof.
  pose proof (DecimalPos.Unsigned.to_uint_nonnil p) as Hp.
  destruct (Pos.to_uint p); [contradiction | reflexivity ..].
Qed.

Lemma fmtInteger_decimal (z : Z) : fmtInteger false z = decimal z.
Proof.
  unfold fmtInteger, decimal. destruct z as [|p|p]; cbn;
    rewrite ?string_of_pos; reflexivity.
Qed.

Lemma fmtInteger_signed (z : Z) : fmtInteger true z = signedDecimal z.
Proof.
  unfold fmtInteger, signedDecimal. destruct z as [|p|p]; cbn;
    rewrite ?string_of_pos; reflexivity.
Qed.

Lemma teamText_sep (e : TableRow.t) : teamText e = (" - " +++ rowData e)%string.
Proof. unfold teamText. cbn. now rewrite append_nil_r. Qed.

Lemma teamText_spec (e : TableRow.t) : teamText e = descriptorSpec e.
Proof.
  rewrite teamText_sep. unfold rowData, rowFormat, descriptorSpec.
  cbn -[String.append]. unfold printVerb, printArg; cbn -[String.append].
  rewrite !fmtInteger_decimal, fmtInteger_signed.
  reflexivity.
Qed.

(** ** Rows by their points *)

Lemma repr_val (a : int) : Int.repr (Int.val a) = a.
Proof.
  apply IntFacts.eq_of_val. rewrite IntFacts.val_repr.
  apply IntFacts.wrap_small, IntFacts.val_bounds.
Qed.

Lemma val_repr_nat (i : nat) :
  Z.of_nat i <= Int.max_signed -> Int.val (Int.repr (Z.of_nat i)) = Z.of_nat i.
Proof.
  intros Hi. rewrite IntFacts.val_repr. apply IntFacts.wrap_small.
  assert (Int.min_signed < 0) by reflexivity. lia.
Qed.

(** A team is written to offset [i] exactly when it holds the points of
    row [i]. *)
Lemma slot_rowPoints (first e : TableRow.t) (i : nat) :
  Z.of_nat i <= Int.max_signed ->
  (slot (TableRow.Points first) e =? Z.of_nat i)
  = Int.eqb (TableRow.Points e) (rowPoints first i).
Proof.
  intros Hi. unfold slot, rowPoints.
  destruct (Z.eqb_spec (Int.val (Int.sub (TableRow.Points first) (TableRow.Points e)))
                       (Z.of_nat i)) as [Heq|Hne]; symmetry.
  - apply Int_eqb_eq. rewrite <- Heq, repr_val. symmetry. apply IntFacts.sub_sub_cancel.
  - apply not_true_is_false. intros Heq. apply Int_eqb_eq in Heq. apply Hne.
    rewrite Heq, IntFacts.sub_sub_cancel. now apply val_repr_nat.
Qed.

Lemma bucket_teamsWith (first : TableRow.t) (i : nat) (t : list TableRow.t) :
  Z.of_nat i <= Int.max_signed ->
  bucket (TableRow.Points first) i t = teamsWith (rowPoints first i) t.
Proof.
  intros Hi. unfold bucket, teamsWith.
  apply List.filter_ext. intros e. now apply slot_rowPoints.
Qed.

Lemma rowPoints_inj (first : TableRow.t) (i j : nat) :
  Z.of_nat i <= Int.max_signed -> Z.of_nat j <= Int.max_signed ->
  rowPoints first i = rowPoints first j -> i = j.
Proof.
  unfold rowPoints. intros Hi Hj Heq.
  apply (f_equal (Int.sub (TableRow.Points first))) in Heq.
  rewrite !IntFacts.sub_sub_cancel in Heq.
  apply (f_equal Int.val) in Heq. rewrite !val_repr_nat in Heq by assumption. lia.
Qed.

Lemma rowCount_max (first lst : TableRow.t) : rowCount first lst <= Int.max_signed.
Proof. apply IntFacts.val_bounds. Qed.

(** Every row of the result, by offset. *)
Lemma cannTable_rows (t : list TableRow.t) (rows : list Row.t) (first : TableRow.t) :
  head t = Some first -> cannTable t = Ok rows ->
  forall (i : nat) (r : Row.t), rows !! i = Some r ->
    Z.of_nat i <= Int.max_signed /\
    Row.Points r = rowPoints first i /\
    Row.Teams r = texts (bucket (TableRow.Points first) i t) /\
    Row.Teams r = texts (teamsWith (Row.Points r) t).
Proof.
  intros Hf Hok i r Hr.
  destruct (cannTable_inv _ _ Hok) as (first' & lst & Hf' & _ & Hn & Hlen & _ & Hrows).
  assert (first' = first) as -> by congruence.
  pose proof (lookup_lt_Some _ _ _ Hr) as Hi.
  pose proof (rowCount_max first lst) as Hmax.
  assert (Hi' : Z.of_nat i <= Int.max_signed) by lia.
  rewrite (Hrows i Hi) in Hr. injection Hr as <-. cbn [Row.Points Row.Teams].
  repeat split; try assumption.
  now rewrite bucket_teamsWith.
Qed.


(** ** Tables in the promised order *)

Lemma head_elem_of {A : Type} (l : list A) (x : A) : head l = Some x -> x ∈ l.
Proof. destruct l; [discriminate|]. intros [= ->]. apply list_elem_of_here. Qed.

Lemma slot_first (first : TableRow.t) : slot (TableRow.Points first) first = 0.
Proof.
  unfold slot. rewrite IntFacts.val_sub, Z.sub_diag. reflexivity.
Qed.





Lemma filter_none {A : Type} (f : A -> bool) (l : list A) :
  (forall x, x ∈ l -> f x = false) -> List.filter f l = [].
Proof.
  induction l as [|x l IH]; intros H; [reflexivity|]. cbn [List.filter].
  rewrite (H x) by apply list_elem_of_here.
  apply IH. intros y Hy. apply H. now apply list_elem_of_further.
Qed.


(** * The table's shape *)





(** * The teams of a row *)






(** The description of a row is the texts of the teams holding its points,
    in the order of the input. *)
Lemma row_teams (t : list TableRow.t) (rows : list Row.t) (r : Row.t) :
  cannTable t = Ok rows -> r ∈ rows ->
  Row.Teams r = texts (teamsWith (Row.Points r) t).
Proof.
  intros Hok Hr.
  destruct (cannTable_inv _ _ Hok) as (first & _ & Hf & _).
  apply list_elem_of_lookup in Hr as [i Hr].
  now destruct (cannTable_rows t rows first Hf Hok _ _ Hr) as (_ & _ & _ & ?).
Qed.

Lemma teamsWith_app (p : cann.Points) (l1 l2 : list TableRow.t) :
  teamsWith p (l1 ++ l2) = teamsWith p l1 ++ teamsWith p l2.
Proof. apply List.filter_app. Qed.

Lemma teamsWith_cons_eq (e : TableRow.t) (l : list TableRow.t) :
  teamsWith (TableRow.Points e) (e :: l) = e :: teamsWith (TableRow.Points e) l.
Proof.
  unfold teamsWith. cbn [List.filter].
  now rewrite (proj2 (Int_eqb_eq _ _) eq_refl).
Qed.






(** * The text of one team *)

(** C4. What the loop appends to a row for one team is the separator [ - ]
    followed by [[position]shortName(played, signed goal difference)], the
    goal difference with its sign in every case: [+5], [-3], [+0]. *)
Theorem descriptor_format (e : TableRow.t) :
  teamText e = descriptorSpec e /\
  (forall (maxPoints : cann.Points) (ct ct' : list Row.t),
     assignTeam maxPoints ct e = Ok ct' ->
     exists r : Row.t,
       ct !! Z.to_nat (slot maxPoints e) = Some r /\
       ct' !! Z.to_nat (slot maxPoints e)
       = Some (Row.mk (Row.Points r) (Row.Teams r +++ descriptorSpec e)) /\
       length ct' = length ct /\
       forall j : nat, j <> Z.to_nat (slot maxPoints e) -> ct' !! j = ct !! j) /\
  (forall z : Z,
     signedDecimal z
     = String (if z <? 0 then "-"%char else "+"%char) (decimal (Z.abs z))) /\
  signedDecimal 5 = "+5"%string /\
  signedDecimal (-3) = "-3"%string /\
  signedDecimal 0 = "+0"%string.
Proof.
  split; [apply teamText_spec|]. split; [|split].
  - intros maxPoints ct ct' H. apply assignTeam_Ok in H as [Hb ->].
    assert (Hi : (Z.to_nat (slot maxPoints e) < length ct)%nat) by lia.
    destruct (lookup_lt_is_Some_2 _ _ Hi) as [r Hr].
    exists r. split; [exact Hr|]. split; [|split].
    + rewrite list_lookup_alter_eq, Hr, <- teamText_spec. reflexivity.
    + apply length_alter.
    + intros j Hj. apply list_lookup_alter_ne. congruence.
  - intros z. unfold signedDecimal, decimal. now destruct z.
  - repeat split.
Qed.

Lemma descriptor_format_witness :
  teamText LIV = " - [2]LIV(10, +8)"%string /\
  exists r : Row.t,
    [Row.mk (Int.repr 25) " - [1]ARS(10, +12)"] !! 0%nat = Some r /\
    [Row.mk (Int.repr 25) " - [1]ARS(10, +12) - [2]LIV(10, +8)"] !! 0%nat
    = Some (Row.mk (Row.Points r) (Row.Teams r +++ " - [2]LIV(10, +8)")).
Proof.
  destruct (descriptor_format LIV) as (Htext & Hstep & _).
  split; [exact Htext|].
  destruct (Hstep (Int.repr 25)
                  [Row.mk (Int.repr 25) " - [1]ARS(10, +12)"]
                  [Row.mk (Int.repr 25) " - [1]ARS(10, +12) - [2]LIV(10, +8)"])
    as (r & Hr & Hr' & _); [vm_compute; reflexivity|].
  exists r. split; [exact Hr | exact Hr'].
Defined.

(** * Failures *)

Lemma index_0_head {A : Type} (s : list A) :
  index s 0 = match head s with
              | Some x => Ok x
              | None => Panic (IndexOutOfRange 0 0)
              end.
Proof. now destruct s. Qed.


Lemma sortedDesc_withinEnds (t : list TableRow.t) (first lst : TableRow.t) :
  head t = Some first -> last t = Some lst -> sortedDesc t = true ->
  withinEnds first lst t = true.
Proof.
  intros Hf Hl Hs. unfold withinEnds. apply forallb_forall. intros e He.
  apply list_elem_of_In in He.
  pose proof (sortedDesc_bounds t first lst Hs Hf Hl e He) as [H1 H2].
  apply andb_true_iff; split; now apply Z.leb_le.
Qed.

(** A run succeeds exactly when the row count is not negative and every
    team's offset falls inside the table. *)
Lemma cannTable_Ok_iff (t : list TableRow.t) :
  (exists rows, cannTable t = Ok rows) <->
  exists first lst : TableRow.t,
    head t = Some first /\ last t = Some lst /\
    0 <= rowCount first lst /\
    Forall (fun e => 0 <= slot (TableRow.Points first) e < rowCount first lst) t.
Proof.
  split.
  - intros [rows Hok].
    destruct (cannTable_inv _ _ Hok) as (first & lst & Hf & Hl & Hn & _ & HF & _).
    now exists first, lst.
  - intros (first & lst & Hf & Hl & Hn & HF). now apply (cannTable_Ok t first lst).
Qed.

(** C6. A standings table without entries: [generateCann] does not return an
    error, it panics on [standingsTable[0]], and so does the handler
    [GenerateTable]; a failure of the decoder, by contrast, comes back as an
    error, which the handler writes out as a message. *)
Theorem empty_table_panics (Execute : list Row.t -> option string)
    (standings : list Byte.byte) (rest : list Standings.t) :
  cannTable [] = Panic (IndexOutOfRange 0 0) /\
  cannOfResponse emptyTable = Panic (IndexOutOfRange 0 0) /\
  generateCann (fun _ => inl (DataResponse.mk (Standings.mk [] :: rest)))
               Execute standings
  = Panic (IndexOutOfRange 0 0) /\
  GenerateTable (fun _ => inl (DataResponse.mk (Standings.mk [] :: rest)))
                Execute (inl standings)
  = Panic (IndexOutOfRange 0 0) /\
  forall msg : string,
    generateCann (fun _ => inr msg) Execute standings
    = Ok (mkReply None
            (Some ("error unmarshalling json from response standings:" +++ msg)%string)) /\
    GenerateTable (fun _ => inr msg) Execute (inl standings)
    = Ok (mkWritten None
            (Some ("Unable to read current league standings "
                   +++ "error unmarshalling json from response standings:"
                   +++ msg)%string)).
Proof.
  repeat split. unfold GenerateTable, generateCann, returnError. cbn.
  now rewrite append_nil_r.
Qed.




(** C8. Only the first element of the standings list is read: responses
    with the same first element give the same table, whatever follows, and
    the same result of [generateCann]. *)
Theorem only_first_standings (d1 d2 : DataResponse.t) :
  head (DataResponse.Standings d1) = head (DataResponse.Standings d2) ->
  cannOfResponse d1 = cannOfResponse d2 /\
  forall (Unmarshal : list Byte.byte -> DataResponse.t + string)
         (Execute : list Row.t -> option string)
         (standings1 standings2 : list Byte.byte),
    Unmarshal standings1 = inl d1 -> Unmarshal standings2 = inl d2 ->
    generateCann Unmarshal Execute standings1
    = generateCann Unmarshal Execute standings2.
Proof.
  intros Hh.
  assert (Heq : cannOfResponse d1 = cannOfResponse d2)
    by (unfold cannOfResponse; now rewrite !index_0_head, Hh).
  split; [exact Heq|].
  intros Unmarshal Execute b1 b2 H1 H2. unfold generateCann.
  now rewrite H1, H2, Heq.
Qed.

Lemma only_first_standings_witness :
  cannOfResponse longerResponse = Ok sampleCann.
Proof.
  destruct (only_first_standings sampleResponse longerResponse eq_refl) as [Heq _].
  rewrite <- Heq. vm_compute; reflexivity.
Defined.

(** C10. A response that decodes but carries no standings: the read of
    [dataResponse.Standings[0]] is not guarded, [generateCann] panics and
    returns neither an error nor a table, and the handler [GenerateTable]
    writes no failure message. *)
Theorem empty_standings_panics
    (Unmarshal : list Byte.byte -> DataResponse.t + string)
    (Execute : list Row.t -> option string)
    (standings : list Byte.byte) (dataResponse : DataResponse.t) :
  Unmarshal standings = inl dataResponse ->
  DataResponse.Standings dataResponse = [] ->
  generateCann Unmarshal Execute standings = Panic (IndexOutOfRange 0 0) /\
  (forall r : reply, generateCann Unmarshal Execute standings <> Ok r) /\
  GenerateTable Unmarshal Execute (inl standings) = Panic (IndexOutOfRange 0 0).
Proof.
  intros Hu Hs.
  assert (Hp : generateCann Unmarshal Execute standings = Panic (IndexOutOfRange 0 0))
    by (unfold generateCann, cannOfResponse; now rewrite Hu, index_0_head, Hs).
  split; [exact Hp|]. split.
  - intros r. rewrite Hp. discriminate.
  - unfold GenerateTable. now rewrite Hp.
Qed.

Lemma empty_standings_panics_witness :
  generateCann (fun _ => inl noStandings) (fun _ => None) []
  = Panic (IndexOutOfRange 0 0) /\
  GenerateTable (fun _ => inl noStandings) (fun _ => None) (inl [])
  = Panic (IndexOutOfRange 0 0).
Proof.
  destruct (empty_standings_panics (fun _ => inl noStandings) (fun _ => None) []
              noStandings eq_refl eq_refl) as (Hg & _ & Hh).
  split; [exact Hg | exact Hh].
Defined.

(** * Further properties of the table *)

Lemma cannRows_lookup (first lst : TableRow.t) (t : list TableRow.t) (i : nat) :
  cannRows first lst t !! i
  = if decide (i < Z.to_nat (rowCount first lst))%nat
    then Some (Row.mk (rowPoints first i) (texts (bucket (TableRow.Points first) i t)))
    else None.
Proof.
  unfold cannRows. rewrite list_lookup_fmap.
  destruct (decide (i < Z.to_nat (rowCount first lst))%nat) as [Hi|Hi].
  - now rewrite lookup_seq_lt.
  - now rewrite lookup_seq_ge by lia.
Qed.

(** A built table is the closed form. *)
Lemma cannTable_Ok_closed (t : list TableRow.t) (rows : list Row.t)
    (first lst : TableRow.t) :
  head t = Some first -> last t = Some lst -> cannTable t = Ok rows ->
  rows = cannRows first lst t.
Proof.
  intros Hf Hl Hok.
  destruct (cannTable_inv _ _ Hok) as (first' & lst' & Hf' & Hl' & Hn & Hlen & _ & Hrows).
  assert (first' = first) as -> by congruence.
  assert (lst' = lst) as -> by congruence.
  apply list_eq. intros i. rewrite cannRows_lookup.
  destruct (decide (i < Z.to_nat (rowCount first lst))%nat) as [Hi|Hi].
  - apply Hrows. lia.
  - apply lookup_ge_None. lia.
Qed.

Lemma cannTable_closed (t : list TableRow.t) (first lst : TableRow.t) :
  head t = Some first -> last t = Some lst ->
  0 <= rowCount first lst ->
  Forall (fun e => 0 <= slot (TableRow.Points first) e < rowCount first lst) t ->
  cannTable t = Ok (cannRows first lst t).
Proof.
  intros Hf Hl Hn HF. destruct (cannTable_Ok t first lst Hf Hl Hn HF) as [rows Hok].
  rewrite Hok. f_equal. now apply cannTable_Ok_closed.
Qed.




Lemma rowPoints_0 (first : TableRow.t) : rowPoints first 0 = TableRow.Points first.
Proof.
  unfold rowPoints. apply IntFacts.eq_of_val.
  rewrite IntFacts.val_sub. change (Int.val (Int.repr (Z.of_nat 0))) with 0.
  rewrite Z.sub_0_r. apply IntFacts.wrap_small, IntFacts.val_bounds.
Qed.

(** The last entry is written to the last row. *)
Lemma slot_last (first lst : TableRow.t) :
  0 <= slot (TableRow.Points first) lst < rowCount first lst ->
  rowCount first lst = slot (TableRow.Points first) lst + 1.
Proof.
  intros Hs. pose proof (rowCount_max first lst) as Hmax.
  unfold rowCount in *. unfold slot in *.
  rewrite IntFacts.val_add in *. change (Int.val Int.one) with 1 in *.
  assert (Hmin : Int.min_signed < 0) by reflexivity.
  rewrite IntFacts.wrap_small in *; lia.
Qed.

Lemma teamText_nonempty (e : TableRow.t) (s : string) :
  (teamText e +++ s)%string <> ""%string.
Proof. rewrite teamText_sep. discriminate. Qed.

(** X2. A built table has no blank row at either end: it has at least one
    row, its first row carries the first entry's points and its description
    starts with that entry's text, its last row carries the last entry's
    points and its description ends with that entry's text. *)
Theorem ends_filled (t : list TableRow.t) (rows : list Row.t) (first lst : TableRow.t) :
  head t = Some first -> last t = Some lst -> cannTable t = Ok rows ->
  exists top bottom : Row.t,
    head rows = Some top /\ last rows = Some bottom /\
    Row.Points top = TableRow.Points first /\
    Row.Points bottom = TableRow.Points lst /\
    (exists rest : string, Row.Teams top = descriptorSpec first +++ rest) /\
    (exists pre : string, Row.Teams bottom = pre +++ descriptorSpec lst).
Proof.
  intros Hf Hl Hok.
  pose proof (cannTable_Ok_closed t rows first lst Hf Hl Hok) as ->.
  destruct (cannTable_inv _ _ Hok) as (first' & lst' & Hf' & Hl' & Hn & Hlen & HF & _).
  assert (first' = first) as -> by congruence.
  assert (lst' = lst) as -> by congruence.
  rewrite Forall_forall in HF.
  pose proof (HF first (head_elem_of _ _ Hf)) as Hsf. rewrite slot_first in Hsf.
  assert (Hlst : lst ∈ t) by (apply last_Some_elem_of, Hl).
  pose proof (HF lst Hlst) as Hsl.
  pose proof (slot_last first lst Hsl) as Hcount.
  set (n := Z.to_nat (rowCount first lst)) in *.
  exists (Row.mk (rowPoints first 0) (texts (bucket (TableRow.Points first) 0 t))),
         (Row.mk (rowPoints first (pred n))
                 (texts (bucket (TableRow.Points first) (pred n) t))).
  split; [|split].
  - rewrite head_lookup, cannRows_lookup. fold n. now rewrite decide_True by lia.
  - rewrite last_lookup, Hlen, cannRows_lookup. fold n. now rewrite decide_True by lia.
  - cbn [Row.Points Row.Teams]. split; [apply rowPoints_0|]. split; [|split].
    + unfold rowPoints. replace (Z.of_nat (pred n))
        with (slot (TableRow.Points first) lst) by lia.
      unfold slot. rewrite repr_val. apply IntFacts.sub_sub_cancel.
    + destruct t as [|x t']; [discriminate|]. injection Hf as ->.
      rewrite bucket_cons, slot_first. change (0 =? Z.of_nat 0) with true.
      cbv iota. rewrite texts_cons, teamText_spec. now eexists.
    + apply last_Some in Hl as [l ->].
      unfold bucket. rewrite List.filter_app. cbn [List.filter].
      replace (Z.of_nat (pred n)) with (slot (TableRow.Points first) lst) by lia.
      rewrite Z.eqb_refl, texts_app, texts_cons, teamText_spec.
      cbn [texts foldr]. rewrite append_nil_r. now eexists.
Qed.

Lemma ends_filled_witness :
  exists top bottom : Row.t,
    head sampleCann = Some top /\ last sampleCann = Some bottom /\
    Int.val (Row.Points top) = 25 /\ Int.val (Row.Points bottom) = 22 /\
    (exists rest : string, Row.Teams top = " - [1]ARS(10, +12)" +++ rest) /\
    (exists pre : string, Row.Teams bottom = pre +++ " - [3]MCI(10, +15)").
Proof.
  destruct (ends_filled sampleTable sampleCann ARS MCI eq_refl eq_refl)
    as (top & bottom & Ht & Hb & Hpt & Hpb & Htt & Hbt); [vm_compute; reflexivity|].
  exists top, bottom. rewrite Hpt, Hpb.
  repeat split; assumption.
Defined.

(** X3. In a built table a row is blank exactly when no entry holds its
    points; a row that is not blank starts with the text of the first entry
    of the input that holds its points. *)
Theorem blank_iff_gap (t : list TableRow.t) (rows : list Row.t) (r : Row.t) :
  cannTable t = Ok rows -> r ∈ rows ->
  (Row.Teams r = ""%string <->
   forall e, e ∈ t -> TableRow.Points e <> Row.Points r) /\
  (Row.Teams r <> ""%string ->
   exists (l1 l2 : list TableRow.t) (e : TableRow.t) (rest : string),
     t = l1 ++ e :: l2 /\
     (forall x, x ∈ l1 -> TableRow.Points x <> Row.Points r) /\
     TableRow.Points e = Row.Points r /\
     Row.Teams r = descriptorSpec e +++ rest).
Proof.
  intros Hok Hr. rewrite (row_teams t rows r Hok Hr).
  generalize (Row.Points r). intros p.
  assert (Hsplit : (forall e, e ∈ t -> TableRow.Points e <> p) \/
                   exists (l1 l2 : list TableRow.t) (e : TableRow.t),
                     t = l1 ++ e :: l2 /\
                     (forall x, x ∈ l1 -> TableRow.Points x <> p) /\
                     TableRow.Points e = p).
  { clear. induction t as [|x t IH].
    - left. intros e He. now apply elem_of_nil in He.
    - destruct (Int.eqb (TableRow.Points x) p) eqn:Hx.
      + right. exists [], t, x. split; [reflexivity|].
        split; [intros y Hy; now apply elem_of_nil in Hy | now apply Int_eqb_eq].
      + assert (Hxp : TableRow.Points x <> p)
          by (intros Heq; apply Int_eqb_eq in Heq; congruence).
        destruct IH as [Hnone|(l1 & l2 & e & -> & Hl1 & He)].
        * left. intros e He. apply elem_of_cons in He as [->|He]; auto.
        * right. exists (x :: l1), l2, e. split; [reflexivity|].
          split; [|exact He].
          intros y Hy. apply elem_of_cons in Hy as [->|Hy]; auto. }
  assert (Hnone : (forall e, e ∈ t -> TableRow.Points e <> p) ->
                  texts (teamsWith p t) = ""%string).
  { intros H. unfold teamsWith. rewrite filter_none; [reflexivity|].
    intros e He. apply not_true_is_false. intros Heq. apply Int_eqb_eq in Heq.
    exact (H e He Heq). }
  assert (Hsome : forall (l1 l2 : list TableRow.t) (e : TableRow.t),
            t = l1 ++ e :: l2 ->
            (forall x, x ∈ l1 -> TableRow.Points x <> p) ->
            TableRow.Points e = p ->
            texts (teamsWith p t)
            = descriptorSpec e +++ texts (teamsWith p l2)).
  { intros l1 l2 e -> Hl1 <-.
    rewrite teamsWith_app, teamsWith_cons_eq.
    unfold teamsWith at 1. rewrite filter_none.
    - cbn [app]. now rewrite texts_cons, teamText_spec.
    - intros x Hx. apply not_true_is_false. intros Heq. apply Int_eqb_eq in Heq.
      exact (Hl1 x Hx Heq). }
  split.
  - split; [|exact Hnone].
    intros Hblank. destruct Hsplit as [H|(l1 & l2 & e & Ht & Hl1 & He)]; [exact H|].
    rewrite (Hsome l1 l2 e Ht Hl1 He), <- teamText_spec in Hblank.
    now apply teamText_nonempty in Hblank.
  - intros Hfull. destruct Hsplit as [H|(l1 & l2 & e & Ht & Hl1 & He)].
    + now rewrite (Hnone H) in Hfull.
    + exists l1, l2, e, (texts (teamsWith p l2)).
      split; [exact Ht|]. split; [exact Hl1|]. split; [exact He|].
      now apply (Hsome l1 l2 e).
Qed.

Lemma blank_iff_gap_witness :
  Row.Teams (Row.mk (Int.repr 24) "") = ""%string <->
  forall e, e ∈ sampleTable -> TableRow.Points e <> Int.repr 24.
Proof.
  destruct (blank_iff_gap sampleTable sampleCann (Row.mk (Int.repr 24) ""))
    as [Hiff _].
  - vm_compute; reflexivity.
  - apply list_elem_of_further, list_elem_of_here.
  - exact Hiff.
Defined.

(** X4. No two rows of a built table carry the same points. *)
Theorem points_distinct (t : list TableRow.t) (rows : list Row.t) :
  cannTable t = Ok rows -> NoDup (Row.Points <$> rows).
Proof.
  intros Hok.
  destruct (cannTable_inv _ _ Hok) as (first & _ & Hf & _).
  apply NoDup_alt. intros i j p Hi Hj.
  apply list_lookup_fmap_Some in Hi as (ri & -> & Hi).
  apply list_lookup_fmap_Some in Hj as (rj & Hp & Hj).
  destruct (cannTable_rows t rows first Hf Hok _ _ Hi) as (Hbi & Hpi & _).
  destruct (cannTable_rows t rows first Hf Hok _ _ Hj) as (Hbj & Hpj & _).
  apply (rowPoints_inj first); [assumption .. | congruence].
Qed.

Lemma points_distinct_witness : NoDup (Row.Points <$> sampleCann).
Proof.
  apply (points_distinct sampleTable). vm_compute; reflexivity.
Defined.

Lemma slot_eq_points (maxPoints : cann.Points) (a b : TableRow.t) :
  slot maxPoints a = slot maxPoints b -> TableRow.Points a = TableRow.Points b.
Proof.
  unfold slot. intros H. apply IntFacts.eq_of_val in H.
  apply (f_equal (Int.sub maxPoints)) in H.
  now rewrite !IntFacts.sub_sub_cancel in H.
Qed.

Lemma bucket_swap (maxPoints : cann.Points) (i : nat) (l1 l2 : list TableRow.t)
    (a b : TableRow.t) :
  TableRow.Points a <> TableRow.Points b ->
  bucket maxPoints i (l1 ++ a :: b :: l2) = bucket maxPoints i (l1 ++ b :: a :: l2).
Proof.
  intros Hab. unfold bucket. rewrite !List.filter_app. f_equal.
  cbn [List.filter].
  destruct (Z.eqb_spec (slot maxPoints a) (Z.of_nat i)) as [Ha|Ha];
    destruct (Z.eqb_spec (slot maxPoints b) (Z.of_nat i)) as [Hb|Hb];
    try reflexivity.
  exfalso. apply Hab, (slot_eq_points maxPoints). congruence.
Qed.

(** X5. Only the order among entries level on points, and which entries
    come first and last, matter: exchanging two neighbours with different
    points, neither of them the first or the last entry, leaves a built
    table as it is. *)
Theorem swap_neighbours (l1 l2 : list TableRow.t) (a b : TableRow.t)
    (rows : list Row.t) :
  l1 <> [] -> l2 <> [] -> TableRow.Points a <> TableRow.Points b ->
  cannTable (l1 ++ a :: b :: l2) = Ok rows ->
  cannTable (l1 ++ b :: a :: l2) = Ok rows.
Proof.
  intros H1 H2 Hab Hok.
  destruct (cannTable_inv _ _ Hok) as (first & lst & Hf & Hl & Hn & _ & HF & _).
  assert (Hf' : head (l1 ++ b :: a :: l2) = Some first).
  { destruct l1; [congruence | exact Hf]. }
  assert (Hl' : last (l1 ++ b :: a :: l2) = Some lst).
  { destruct l2 as [|y l2]; [congruence|].
    rewrite last_app in Hl |- *. rewrite !last_cons_cons in Hl |- *. exact Hl. }
  rewrite (cannTable_Ok_closed _ rows first lst Hf Hl Hok).
  assert (HF' : Forall (fun e => 0 <= slot (TableRow.Points first) e
                                 < rowCount first lst) (l1 ++ b :: a :: l2)).
  { rewrite Forall_app in HF |- *. destruct HF as [HF1 HF2]. split; [exact HF1|].
    inversion HF2 as [|? ? Ha HF3]; subst. inversion HF3 as [|? ? Hb HF4]; subst.
    constructor; [exact Hb|]. constructor; [exact Ha | exact HF4]. }
  rewrite (cannTable_closed _ first lst Hf' Hl' Hn HF'). f_equal. unfold cannRows. apply map_ext. intros i.
  now rewrite (bucket_swap _ i l1 l2 a b Hab).
Qed.

Lemma swap_neighbours_witness :
  exists rows : list Row.t,
    cannTable shuffledTable = Ok rows /\
    cannTable [entry 1 "AAA" 5 10 0; entry 3 "CCC" 5 9 2; entry 2 "BBB" 5 8 (-3);
               entry 4 "DDD" 5 8 1] = Ok rows.
Proof.
  eexists. split; [vm_compute; reflexivity|].
  apply (swap_neighbours [entry 1 "AAA" 5 10 0] [entry 4 "DDD" 5 8 1]
           (entry 2 "BBB" 5 8 (-3)) (entry 3 "CCC" 5 9 2)).
  - discriminate.
  - discriminate.
  - intros H. apply (f_equal Int.val) in H. vm_compute in H. discriminate.
  - vm_compute; reflexivity.
Defined.

(** * The rest of [generateCann], [GenerateTable] and [getStandings] *)



Lemma generateCann_unrendered
    (Unmarshal : list Byte.byte -> DataResponse.t + string)
    (Execute : list Row.t -> option string) (standings : list Byte.byte)
    (e : option string) :
  generateCann Unmarshal Execute standings = Ok (mkReply None e) -> e <> None.
Proof.
  unfold generateCann. destruct (Unmarshal standings) as [dr|m].
  - destruct (cannOfResponse dr) as [rows|p]; cbn [bind]; [|discriminate].
    destruct (Execute rows); discriminate.
  - intros [= <-]. discriminate.
Qed.

Lemma returnError_text (e : string) :
  returnError e = ("Unable to read current league standings " +++ e)%string.
Proof. unfold returnError. cbn. now rewrite append_nil_r. Qed.

(** X7. When [GenerateTable] returns it has never written nothing: either
    the page was rendered without a failure, or a failure message was
    written, and every failure message is [Unable to read current league
    standings ] followed by the error of the fetch or of [generateCann]. *)
Theorem GenerateTable_reports
    (Unmarshal : list Byte.byte -> DataResponse.t + string)
    (Execute : list Row.t -> option string)
    (fetched : list Byte.byte + string) (w : written) :
  GenerateTable Unmarshal Execute fetched = Ok w ->
  (failure w = None ->
   exists (standings : list Byte.byte) (rows : list Row.t),
     fetched = inl standings /\
     generateCann Unmarshal Execute standings = Ok (mkReply (Some rows) None) /\
     page w = Some rows) /\
  (forall m : string, failure w = Some m ->
   exists e : string,
     m = ("Unable to read current league standings " +++ e)%string /\
     (fetched = inr e \/
      exists (standings : list Byte.byte) (r : reply),
        fetched = inl standings /\
        generateCann Unmarshal Execute standings = Ok r /\
        err r = Some e /\ page w = rendered r)).
Proof.
  unfold GenerateTable. intros H.
  destruct fetched as [standings|e].
  - destruct (generateCann Unmarshal Execute standings) as [r|p] eqn:Hg;
      cbn [bind] in H; [|discriminate].
    destruct r as [rd [e|]]; cbn [err rendered] in H; injection H as <-;
      cbn [failure page].
    + split; [discriminate|]. intros m [= <-]. exists e.
      split; [apply returnError_text|]. right.
      exists standings, (mkReply rd (Some e)). auto.
    + split; [|discriminate]. intros _.
      destruct rd as [rows|].
      * now exists standings, rows.
      * now apply generateCann_unrendered in Hg.
  - injection H as <-. cbn [failure page].
    split; [discriminate|]. intros m [= <-]. exists e.
    split; [apply returnError_text | now left].
Qed.

Lemma GenerateTable_reports_witness :
  (exists (standings : list Byte.byte) (rows : list Row.t),
     (inl [] : list Byte.byte + string) = inl standings /\
     generateCann (fun _ => inl sampleResponse) (fun _ => None) standings
     = Ok (mkReply (Some rows) None) /\
     Some sampleCann = Some rows) /\
  (exists e : string,
     "Unable to read current league standings response failure: timeout"%string
     = ("Unable to read current league standings " +++ e)%string).
Proof.
  split.
  - destruct (GenerateTable_reports (fun _ => inl sampleResponse) (fun _ => None)
                (inl []) (mkWritten (Some sampleCann) None)) as [Hpage _].
    + vm_compute; reflexivity.
    + apply Hpage. reflexivity.
  - destruct (GenerateTable_reports (fun _ => inl sampleResponse) (fun _ => None)
                (inr "response failure: timeout"%string)
                (mkWritten None
                   (Some "Unable to read current league standings response failure: timeout"%string)))
      as [_ Hmsg].
    + vm_compute; reflexivity.
    + destruct (Hmsg _ eq_refl) as (e & He & _). now exists e.
Defined.

Lemma addHeader_token (token : string) :
  Request.addHeader "X-Auth-Token" token (Request.mk MethodGet standingsURL [])
  = tokenRequest token.
Proof. reflexivity. Qed.

Lemma status_text (code : int) :
  Sprintf "response status not OK: %v" [ArgInt code]
  = ("response status not OK: " +++ decimal (Int.val code))%string.
Proof. cbn. now rewrite fmtInteger_decimal, append_nil_r. Qed.

(** The five ways through [getStandings]. *)
Lemma getStandings_cases (newRequestError : option string)
    (LookupEnv : string -> option string) (Do : Request.t -> Response.t + string) :
  (exists e, newRequestError = Some e /\
     getStandings newRequestError LookupEnv Do
     = (inr ("create standings request failure: " +++ e)%string, [])) \/
  (newRequestError = None /\ LookupEnv "API_TOKEN"%string = None /\
     getStandings newRequestError LookupEnv Do
     = (inr "environment variable -API_TOKEN- can not be read"%string, [])) \/
  (exists token, newRequestError = None /\ LookupEnv "API_TOKEN"%string = Some token /\
     ((exists e, Do (tokenRequest token) = inr e /\
         getStandings newRequestError LookupEnv Do
         = (inr ("response failure: " +++ e)%string, [Sent (tokenRequest token)])) \/
      (exists resp, Do (tokenRequest token) = inl resp /\
         ((Response.StatusCode resp <> StatusOK /\
           getStandings newRequestError LookupEnv Do
           = (inr ("response status not OK: "
                   +++ decimal (Int.val (Response.StatusCode resp)))%string,
              [Sent (tokenRequest token); Closed])) \/
          (Response.StatusCode resp = StatusOK /\
           exists e, Response.Body resp = inr e /\
             getStandings newRequestError LookupEnv Do
             = (inr ("cannot read response: " +++ e)%string,
                [Sent (tokenRequest token); ReadBody; Closed])) \/
          (Response.StatusCode resp = StatusOK /\
           exists body, Response.Body resp = inl body /\
             getStandings newRequestError LookupEnv Do
             = (inl body, [Sent (tokenRequest token); ReadBody; Closed])))))).
Proof.
  unfold getStandings.
  destruct newRequestError as [e|]; [left; now exists e|]. right.
  destruct (LookupEnv "API_TOKEN"%string) as [token|]; [|now left]. right.
  exists token. split; [reflexivity|]. split; [reflexivity|].
  rewrite addHeader_token.
  destruct (Do (tokenRequest token)) as [resp|e]; [|left; now exists e]. right.
  exists resp. split; [reflexivity|].
  destruct (Int.eqb (Response.StatusCode resp) StatusOK) eqn:Hc; cbn [negb].
  - apply Int_eqb_eq in Hc. right.
    destruct (Response.Body resp) as [body|e].
    + right. split; [exact Hc|]. now exists body.
    + left. split; [exact Hc|]. now exists e.
  - left. split.
    + intros Heq. apply Int_eqb_eq in Heq. congruence.
    + now rewrite status_text.
Qed.

Ltac trace_facts :=
  repeat match goal with
    | H : _ ∈ [] |- _ => apply elem_of_nil in H; contradiction
    | H : _ ∈ _ :: _ |- _ => apply elem_of_cons in H as [H|H]; try discriminate
    end.

(** X8. [getStandings] never sends a request without the token: without
    [API_TOKEN] in the environment nothing at all is sent, read or closed;
    a request that is sent is the one [GET] of the standings URL with the
    token in [X-Auth-Token] as its only header field, and it is the only
    request sent. *)
Theorem sends_with_token (newRequestError : option string)
    (LookupEnv : string -> option string) (Do : Request.t -> Response.t + string) :
  (LookupEnv "API_TOKEN"%string = None ->
   snd (getStandings newRequestError LookupEnv Do) = []) /\
  (forall req : Request.t,
     Sent req ∈ snd (getStandings newRequestError LookupEnv Do) ->
     exists (token : string) (rest : list event),
       LookupEnv "API_TOKEN"%string = Some token /\
       req = Request.mk "GET" standingsURL [("X-Auth-Token"%string, token)] /\
       snd (getStandings newRequestError LookupEnv Do) = Sent req :: rest /\
       forall r : Request.t, Sent r ∉ rest).
Proof.
  destruct (getStandings_cases newRequestError LookupEnv Do)
    as [(e & _ & ->)|[(_ & Hno & ->)|(token & _ & Htok & Hdo)]]; cbn [snd].
  - split; [reflexivity|]. intros req H. trace_facts.
  - split; [reflexivity|]. intros req H. trace_facts.
  - split; [congruence|].
    destruct Hdo as [(e & _ & ->)|(resp & _ & [(_ & ->)|[(_ & e & _ & ->)|(_ & b & _ & ->)]])];
      cbn [snd]; intros req H; trace_facts; injection H as ->;
      eexists token, _; (split; [exact Htok|]); (split; [reflexivity|]);
      (split; [reflexivity|]); intros r Hr; trace_facts.
Qed.

Lemma sends_with_token_witness :
  exists rest : list event,
    snd (getStandings None (fun _ => Some "secret"%string) (tokenServer "secret" []))
    = Sent (tokenRequest "secret") :: rest /\
    forall r : Request.t, Sent r ∉ rest.
Proof.
  destruct (sends_with_token None (fun _ => Some "secret"%string)
              (tokenServer "secret" [])) as [_ Hsent].
  destruct (Hsent (tokenRequest "secret")) as (token & rest & _ & _ & Htr & Hrest).
  - vm_compute. apply list_elem_of_here.
  - exists rest. split; [exact Htr | exact Hrest].
Defined.

(** X9. The response body is closed exactly when a response was received,
    once, and as the last thing done, also when the status is not 200 or
    reading fails; the body is read only under status 200. *)
Theorem body_closed (newRequestError : option string)
    (LookupEnv : string -> option string) (Do : Request.t -> Response.t + string) :
  (Closed ∈ snd (getStandings newRequestError LookupEnv Do) <->
   newRequestError = None /\
   exists (token : string) (resp : Response.t),
     LookupEnv "API_TOKEN"%string = Some token /\
     Do (tokenRequest token) = inl resp) /\
  (Closed ∈ snd (getStandings newRequestError LookupEnv Do) ->
   exists pre : list event,
     snd (getStandings newRequestError LookupEnv Do) = pre ++ [Closed] /\
     Closed ∉ pre) /\
  (ReadBody ∈ snd (getStandings newRequestError LookupEnv Do) <->
   newRequestError = None /\
   exists (token : string) (resp : Response.t),
     LookupEnv "API_TOKEN"%string = Some token /\
     Do (tokenRequest token) = inl resp /\
     Response.StatusCode resp = StatusOK).
Proof.
  destruct (getStandings_cases newRequestError LookupEnv Do)
    as [(e & Hn & ->)|[(Hn & Hno & ->)|(token & Hn & Htok & Hdo)]]; cbn [snd].
  - split; [|split].
    + split; [intros H; trace_facts | intros [? _]; congruence].
    + intros H; trace_facts.
    + split; [intros H; trace_facts | intros [? _]; congruence].
  - split; [|split].
    + split; [intros H; trace_facts | intros (_ & ? & ? & ? & _); congruence].
    + intros H; trace_facts.
    + split; [intros H; trace_facts | intros (_ & ? & ? & ? & _); congruence].
  - destruct Hdo as [(e & Hd & ->)|(resp & Hd & [(Hc & ->)|[(Hc & e & _ & ->)|(Hc & b & _ & ->)]])];
      cbn [snd].
    + split; [|split].
      * split; [intros H; trace_facts|].
        intros (_ & token' & resp & Ht & Hr). congruence.
      * intros H; trace_facts.
      * split; [intros H; trace_facts|].
        intros (_ & token' & resp & Ht & Hr & _). congruence.
    + split; [|split].
      * split; [intros _; split; [exact Hn | now exists token, resp]|].
        intros _. apply list_elem_of_further, list_elem_of_here.
      * intros _. exists [Sent (tokenRequest token)]. split; [reflexivity|].
        intros H; trace_facts.
      * split; [intros H; trace_facts|].
        intros (_ & token' & resp' & Ht & Hr & Hs). congruence.
    + split; [|split].
      * split; [intros _; split; [exact Hn | now exists token, resp]|].
        intros _. do 2 apply list_elem_of_further. apply list_elem_of_here.
      * intros _. exists [Sent (tokenRequest token); ReadBody].
        split; [reflexivity|]. intros H; trace_facts.
      * split; [intros _; split; [exact Hn | now exists token, resp]|].
        intros _. apply list_elem_of_further, list_elem_of_here.
    + split; [|split].
      * split; [intros _; split; [exact Hn | now exists token, resp]|].
        intros _. do 2 apply list_elem_of_further. apply list_elem_of_here.
      * intros _. exists [Sent (tokenRequest token); ReadBody].
        split; [reflexivity|]. intros H; trace_facts.
      * split; [intros _; split; [exact Hn | now exists token, resp]|].
        intros _. apply list_elem_of_further, list_elem_of_here.
Qed.

Lemma body_closed_witness :
  exists pre : list event,
    snd (getStandings None (fun _ => Some "guess"%string) (tokenServer "secret" []))
    = pre ++ [Closed] /\
    (Closed ∉ pre) /\ (ReadBody ∉ pre).
Proof.
  destruct (body_closed None (fun _ => Some "guess"%string) (tokenServer "secret" []))
    as (Hclosed & Honce & Hread).
  destruct Honce as (pre & Hpre & Hnot).
  - apply Hclosed. split; [reflexivity|].
    now exists "guess"%string, (Response.mk (Int.repr 401) (inr "closed"%string)).
  - exists pre. split; [exact Hpre|]. split; [exact Hnot|].
    intros Hin. assert (Hr : ReadBody ∈ pre ++ [Closed])
      by (apply elem_of_app; now left).
    rewrite <- Hpre in Hr. apply Hread in Hr as (_ & token & resp & Ht & Hd & Hs).
    injection Ht as <-. vm_compute in Hd. injection Hd as <-.
    apply (f_equal Int.val) in Hs. vm_compute in Hs. discriminate.
Defined.

(** X10. [getStandings] returns a body exactly when the request could be
    made, the token is set, a response came with status 200 and its body
    was read, and the body returned is the one read; under any other status
    the error names the status code in decimal. *)
Theorem fetch_succeeds_iff (newRequestError : option string)
    (LookupEnv : string -> option string) (Do : Request.t -> Response.t + string) :
  (forall body : list Byte.byte,
     fst (getStandings newRequestError LookupEnv Do) = inl body <->
     newRequestError = None /\
     exists (token : string) (resp : Response.t),
       LookupEnv "API_TOKEN"%string = Some token /\
       Do (tokenRequest token) = inl resp /\
       Response.StatusCode resp = StatusOK /\
       Response.Body resp = inl body) /\
  (forall (token : string) (resp : Response.t),
     newRequestError = None ->
     LookupEnv "API_TOKEN"%string = Some token ->
     Do (tokenRequest token) = inl resp ->
     Response.StatusCode resp <> StatusOK ->
     fst (getStandings newRequestError LookupEnv Do)
     = inr ("response status not OK: "
            +++ decimal (Int.val (Response.StatusCode resp)))%string).
Proof.
  destruct (getStandings_cases newRequestError LookupEnv Do)
    as [(e & Hn & ->)|[(Hn & Hno & ->)|(token & Hn & Htok & Hdo)]]; cbn [fst].
  - split; [|congruence].
    intros body. split; [discriminate | intros [? _]; congruence].
  - split; [|congruence].
    intros body. split; [discriminate | intros (_ & ? & ? & ? & _); congruence].
  - destruct Hdo as [(e & Hd & ->)|(resp & Hd & [(Hc & ->)|[(Hc & e & Hb & ->)|(Hc & b & Hb & ->)]])];
      cbn [fst].
    + split; [|congruence].
      intros body. split; [discriminate|].
      intros (_ & token' & resp & Ht & Hr & _). congruence.
    + split.
      * intros body. split; [discriminate|].
        intros (_ & token' & resp' & Ht & Hr & Hs & _). congruence.
      * intros token' resp' _ Ht Hr _. congruence.
    + split.
      * intros body. split; [discriminate|].
        intros (_ & token' & resp' & Ht & Hr & _ & Hb'). congruence.
      * intros token' resp' _ Ht Hr Hs. congruence.
    + split.
      * intros body. split.
        -- intros [= <-]. split; [exact Hn|]. now exists token, resp.
        -- intros (_ & token' & resp' & Ht & Hr & _ & Hb'). congruence.
      * intros token' resp' _ Ht Hr Hs. congruence.
Qed.

Lemma fetch_succeeds_iff_witness :
  fst (getStandings None (fun _ => Some "secret"%string)
         (tokenServer "secret" [Byte.x00]))
  = inl [Byte.x00] /\
  fst (getStandings None (fun _ => Some "guess"%string)
         (tokenServer "secret" [Byte.x00]))
  = inr "response status not OK: 401"%string.
Proof.
  destruct (fetch_succeeds_iff None (fun _ => Some "secret"%string)
              (tokenServer "secret" [Byte.x00])) as [Hok _].
  destruct (fetch_succeeds_iff None (fun _ => Some "guess"%string)
              (tokenServer "secret" [Byte.x00])) as [_ Hstatus].
  split.
  - apply Hok. split; [reflexivity|].
    now exists "secret"%string, (Response.mk StatusOK (inl [Byte.x00])).
  - apply (Hstatus "guess"%string (Response.mk (Int.repr 401) (inr "closed"%string)));
      try reflexivity.
    intros H. apply (f_equal Int.val) in H. vm_compute in H. discriminate.
Defined.

(** X11. A failed fetch is reported and nothing else happens: the handler
    writes [Unable to read current league standings ] and the error of
    [getStandings], renders no page and does not panic, whatever the decoder
    and the template would do.  Without [API_TOKEN] the message names the
    variable; under a status other than 200 it names the status code. *)
Theorem fetch_failure_reported (newRequestError : option string)
    (LookupEnv : string -> option string) (Do : Request.t -> Response.t + string)
    (Unmarshal : list Byte.byte -> DataResponse.t + string)
    (Execute : list Row.t -> option string) :
  (forall e : string,
     fst (getStandings newRequestError LookupEnv Do) = inr e ->
     fetchAndGenerate newRequestError LookupEnv Do Unmarshal Execute
     = Ok (mkWritten None
             (Some ("Unable to read current league standings " +++ e)%string))) /\
  (newRequestError = None -> LookupEnv "API_TOKEN"%string = None ->
   fetchAndGenerate newRequestError LookupEnv Do Unmarshal Execute
   = Ok (mkWritten None
           (Some ("Unable to read current league standings "
                  +++ "environment variable -API_TOKEN- can not be read")%string))) /\
  (forall (token : string) (resp : Response.t),
     newRequestError = None ->
     LookupEnv "API_TOKEN"%string = Some token ->
     Do (tokenRequest token) = inl resp ->
     Response.StatusCode resp <> StatusOK ->
     fetchAndGenerate newRequestError LookupEnv Do Unmarshal Execute
     = Ok (mkWritten None
             (Some ("Unable to read current league standings "
                    +++ "response status not OK: "
                    +++ decimal (Int.val (Response.StatusCode resp)))%string))).
Proof.
  assert (Hrule : forall e : string,
            fst (getStandings newRequestError LookupEnv Do) = inr e ->
            fetchAndGenerate newRequestError LookupEnv Do Unmarshal Execute
            = Ok (mkWritten None
                    (Some ("Unable to read current league standings " +++ e)%string))).
  { intros e He. unfold fetchAndGenerate, GenerateTable.
    now rewrite He, returnError_text. }
  split; [exact Hrule|].
  destruct (getStandings_cases newRequestError LookupEnv Do)
    as [(e & Hn & Hg)|[(Hn & Hno & Hg)|(token & Hn & Htok & Hdo)]].
  - split; congruence.
  - split; [|congruence]. intros _ _. apply Hrule. now rewrite Hg.
  - split; [congruence|]. intros token' resp' _ Ht Hr Hs.
    assert (token' = token) as -> by congruence.
    destruct Hdo as [(e & Hd & _)|(resp & Hd & [(Hc & Hg)|[(Hc & _)|(Hc & _)]])];
      try congruence.
    assert (resp' = resp) as -> by congruence.
    apply Hrule. now rewrite Hg.
Qed.

Lemma fetch_failure_reported_witness :
  fetchAndGenerate None (fun _ => None) (tokenServer "secret" [])
                   (fun _ => inl sampleResponse) (fun _ => None)
  = Ok (mkWritten None
          (Some "Unable to read current league standings environment variable -API_TOKEN- can not be read"%string)) /\
  fetchAndGenerate None (fun _ => Some "guess"%string) (tokenServer "secret" [])
                   (fun _ => inl sampleResponse) (fun _ => None)
  = Ok (mkWritten None
          (Some "Unable to read current league standings response status not OK: 401"%string)).
Proof.
  destruct (fetch_failure_reported None (fun _ => None) (tokenServer "secret" [])
              (fun _ => inl sampleResponse) (fun _ => None)) as (_ & Hmissing & _).
  destruct (fetch_failure_reported None (fun _ => Some "guess"%string)
              (tokenServer "secret" [])
              (fun _ => inl sampleResponse) (fun _ => None)) as (_ & _ & Hstatus).
  split.
  - apply Hmissing; reflexivity.
  - apply (Hstatus "guess"%string (Response.mk (Int.repr 401) (inr "closed"%string)));
      try reflexivity.
    intros H. apply (f_equal Int.val) in H. vm_compute in H. discriminate.
Defined.



(** * What the table does not depend on *)

Lemma index_fmap {A B : Type} (f : A -> B) (s : list A) (i : Z) :
  index (f <$> s) i
  = match index s i with
    | Ok x => Ok (f x)
    | Panic p => Panic p
    end.
Proof.
  unfold index, inBounds. rewrite length_fmap.
  destruct ((0 <=? i) && (i <? Z.of_nat (length s))); [|reflexivity].
  rewrite list_lookup_fmap. now destruct (s !! Z.to_nat i).
Qed.

Lemma forRange_assign_fmap (maxPoints : cann.Points) (f : TableRow.t -> TableRow.t)
    (t : list TableRow.t) :
  (forall e, TableRow.Points (f e) = TableRow.Points e) ->
  (forall e, teamText (f e) = teamText e) ->
  forall ct : list Row.t,
    forRange (assignTeam maxPoints) ct (f <$> t)
    = forRange (assignTeam maxPoints) ct t.
Proof.
  intros Hp Ht. induction t as [|e t IH]; intros ct; [reflexivity|].
  cbn [fmap list_fmap forRange].
  assert (Hstep : assignTeam maxPoints ct (f e) = assignTeam maxPoints ct e)
    by (unfold assignTeam; now rewrite Hp, Ht).
  rewrite Hstep. destruct (assignTeam maxPoints ct e); cbn [bind]; [apply IH | reflexivity].
Qed.

(** X13. The team ids, decoded with every entry, are never used: giving the
    entries other ids changes neither the table built nor the panic raised. *)
Theorem ids_unused (ids : TableRow.t -> int) (t : list TableRow.t) :
  cannTable ((fun e => setID (ids e) e) <$> t) = cannTable t.
Proof.
  set (f := fun e => setID (ids e) e).
  assert (Hp : forall e, TableRow.Points (f e) = TableRow.Points e) by reflexivity.
  assert (Ht : forall e, teamText (f e) = teamText e) by reflexivity.
  unfold cannTable. rewrite !index_fmap, length_fmap.
  destruct (index t 0) as [first|]; [|reflexivity].
  destruct (index t (Z.of_nat (length t) - 1)) as [lst|]; [|reflexivity].
  cbn [bind]. rewrite !Hp.
  destruct (make Row.zero _) as [empty|]; [|reflexivity].
  cbn [bind]. now apply forRange_assign_fmap.
Qed.
